(** * World Clock: a shallow embedding of [script.js]

    The script keeps one piece of state, [selectedTimezone], and a handful of
    DOM nodes it writes to.  Here a JavaScript string is the list of its
    UTF-16 code units, the DOM nodes the script touches are record fields,
    and the ambient clock ([new Date()]) is an explicit argument.

    What the script takes from outside is a parameter of the development:
    - the page markup (the text of the three output slots and the top-row
      [.city] buttons with their optional [data-timezone]), see [markup];
      the markup is taken to provide the four elements the script looks up
      by id, to keep its [.city] buttons outside [#timezone-bar] and to have
      no [.tz-btn] of its own;
    - the runtime ([Intl], the Unicode case tables), see [platform]. *)

From Stdlib Require Import Ascii String List NArith ZArith Bool Lia.
Import ListNotations.

Set Implicit Arguments.

(** ** JavaScript strings *)

Definition jsstring := list N.

(** Code units of an ASCII literal. *)
Fixpoint js (s : string) : jsstring :=
  match s with
  | EmptyString => []
  | String c r => N_of_ascii c :: js r
  end.

(** [a === b] on two strings. *)
Fixpoint strictEq (a b : jsstring) : bool :=
  match a, b with
  | [], [] => true
  | x :: a', y :: b' => N.eqb x y && strictEq a' b'
  | _, _ => false
  end.

(** [x === b] where [x] may be [undefined] (a missing data attribute). *)
Definition strictEqOpt (x : option jsstring) (b : jsstring) : bool :=
  match x with
  | Some a => strictEq a b
  | None => false
  end.

(** Truthiness of a string: every string but the empty one. *)
Definition truthy (s : jsstring) : bool :=
  match s with
  | [] => false
  | _ :: _ => true
  end.

(** *** Character classes of the three regular expressions *)

Definition SLASH : N := 47.
Definition HYPHEN : N := 45.
Definition UNDERSCORE : N := 95.
Definition SPACE : N := 32.

Definition between (lo hi c : N) : bool := N.leb lo c && N.leb c hi.

Definition isSlash (c : N) : bool := N.eqb c SLASH.
Definition isUnderscore (c : N) : bool := N.eqb c UNDERSCORE.

(** [\s]: the WhiteSpace and LineTerminator code points of ECMAScript. *)
Definition isWhiteSpace (c : N) : bool :=
  between 9 13 c || N.eqb c 32 || N.eqb c 160 || N.eqb c 5760
  || between 8192 8202 c || N.eqb c 8232 || N.eqb c 8233 || N.eqb c 8239
  || N.eqb c 8287 || N.eqb c 12288 || N.eqb c 65279.

Definition isUpper (c : N) : bool := between 65 90 c.
Definition isLower (c : N) : bool := between 97 122 c.
Definition isDigit (c : N) : bool := between 48 57 c.

(** [[A-Za-z0-9-_]]: after the range [0-9] the hyphen and the underscore
    stand for themselves. *)
Definition isKeyChar (c : N) : bool :=
  isUpper c || isLower c || isDigit c || N.eqb c HYPHEN || N.eqb c UNDERSCORE.

(** [[^A-Za-z0-9-_]] *)
Definition notKeyChar (c : N) : bool := negb (isKeyChar c).

(** *** [String.prototype.replace] with a global one-class pattern *)

(** [s.replace(/[cls]/g, rep)]: every code unit of the class is replaced. *)
Fixpoint replaceEach (cls : N -> bool) (rep : jsstring) (s : jsstring) : jsstring :=
  match s with
  | [] => []
  | c :: r => if cls c then rep ++ replaceEach cls rep r
              else c :: replaceEach cls rep r
  end.

(** [s.replace(/[cls]+/g, rep)]: [+] is greedy, so every maximal run of the
    class is replaced once.  [inRun] tells that the code unit before the
    current one belongs to a run already replaced. *)
Fixpoint replaceRunsFrom (cls : N -> bool) (rep : jsstring) (inRun : bool)
         (s : jsstring) : jsstring :=
  match s with
  | [] => []
  | c :: r =>
      if cls c then
        if inRun then replaceRunsFrom cls rep true r
        else rep ++ replaceRunsFrom cls rep true r
      else c :: replaceRunsFrom cls rep false r
  end.

Definition replaceRuns (cls : N -> bool) (rep : jsstring) (s : jsstring) : jsstring :=
  replaceRunsFrom cls rep false s.

(** *** [String.prototype.split] on a one-unit separator, [Array.prototype.pop] *)

Fixpoint split (sep : N) (s : jsstring) : list jsstring :=
  match s with
  | [] => [[]]
  | c :: r =>
      if N.eqb c sep then [] :: split sep r
      else match split sep r with
           | seg :: segs => (c :: seg) :: segs
           | [] => [[c]]
           end
  end.

(** [arr.pop()]: the last element, [undefined] ([None]) on an empty array. *)
Fixpoint pop (A : Type) (arr : list A) : option A :=
  match arr with
  | [] => None
  | [x] => Some x
  | _ :: rest => pop rest
  end.

(** *** [String.prototype.toLowerCase] *)

Definition isAscii (c : N) : bool := N.ltb c 128.

Definition lowerAscii (c : N) : N := if isUpper c then c + 32 else c.

(** ** The runtime *)

(** What [Intl.supportedValuesOf] is at the time [getAllTimeZones] runs. *)
Inductive supportedValuesOfT :=
| NotAFunction
| Throws
| Returns (zones : list jsstring).

(** The [Intl] object.  [Intl.DateTimeFormat] is modelled on the fields the
    script asks for: the constructor resolves [timeZone] (a [RangeError],
    [None], when the runtime does not know the zone) to the zone's UT offset,
    which the time-zone database gives in whole seconds as a function of the
    epoch second; [format] breaks the shifted time value down and renders
    the requested components in the default locale ([renderTime] for
    hour/minute/second, [renderDate] for the calendar day). *)
Record IntlT := {
  supportedValuesOf : supportedValuesOfT;
  zoneOffset : jsstring -> option (Z -> Z);
  renderTime : Z -> Z -> Z -> jsstring;
  renderDate : Z -> jsstring
}.

(** [intl = None]: [typeof Intl] is not ['object'].  [unicodeLower] is the
    runtime's case conversion of strings that are not pure ASCII. *)
Record platform := {
  intl : option IntlT;
  unicodeLower : jsstring -> jsstring
}.

(** ** The page *)

(** A top-row [.city] button of the markup: its [data-timezone] attribute
    (absent: [None]), whether its class list holds [active], and its
    [aria-pressed] attribute. *)
Record cityButton := {
  city_timezone : option jsstring;
  city_active : bool;
  city_ariaPressed : option jsstring
}.

(** A [.tz-btn] button created by [buildTimezoneBar]. *)
Record tzButton := {
  tz_timezone : jsstring;
  tz_testid : jsstring;
  tz_textContent : jsstring;
  tz_title : jsstring;
  tz_active : bool
}.

(** The markup as the script finds it when it is loaded. *)
Record markup := {
  m_clock : jsstring;
  m_cityName : jsstring;
  m_date : jsstring;
  m_cities : list cityButton
}.

(** The variable [selectedTimezone], the text of [#clock], [#city-name] and
    [#date], the cached [.city] buttons, the children of [#timezone-bar], and
    whether [setInterval(updateClock, 1000)] has been reached. *)
Record state := {
  selectedTimezone : jsstring;
  clockEl : jsstring;
  cityNameEl : jsstring;
  dateEl : jsstring;
  coreCityButtons : list cityButton;
  timezoneBarEl : list tzButton;
  intervalSet : bool
}.

Record DisplayStrings := { time : jsstring; date : jsstring }.

(** How a call ends: it returns, or an exception leaves it. *)
Inductive completion := Normal | Thrown.

(** ** Time values (ECMAScript, milliseconds since the epoch) *)

Local Open Scope Z_scope.

Definition msPerSecond : Z := 1000.
Definition msPerMinute : Z := 60000.
Definition msPerHour : Z := 3600000.
Definition msPerDay : Z := 86400000.

Definition Day (t : Z) : Z := t / msPerDay.
Definition HourFromTime (t : Z) : Z := (t / msPerHour) mod 24.
Definition MinFromTime (t : Z) : Z := (t / msPerMinute) mod 60.
Definition SecFromTime (t : Z) : Z := (t / msPerSecond) mod 60.

(** The clock second an instant falls in. *)
Definition clockSecond (t : Z) : Z := t / msPerSecond.

(** The time value shifted to the zone: the offset in force at the instant's
    second, in milliseconds. *)
Definition toLocalTime (offset : Z -> Z) (t : Z) : Z :=
  t + msPerSecond * offset (clockSecond t).

Local Close Scope Z_scope.

(** ** The script *)

Definition defaultTimezone : jsstring := js "Australia/Brisbane".

Definition fallbackZones : list jsstring :=
  map js
    [ "Pacific/Auckland"; "Australia/Brisbane"; "Asia/Tokyo"; "Asia/Kolkata";
      "Europe/London"; "Europe/Paris"; "Europe/Berlin"; "America/New_York";
      "America/Los_Angeles"; "America/Chicago"; "America/Denver"; "UTC" ]%string.

Definition prettyLabelFromTimezone (tz : jsstring) : jsstring :=
  match pop (split SLASH tz) with
  | Some part =>
      if truthy part then replaceEach isUnderscore [SPACE] part else tz
  | None => tz
  end.

Section Script.

Variable P : platform.

Definition toLowerCase (s : jsstring) : jsstring :=
  if forallb isAscii s then map lowerAscii s else unicodeLower P s.

Definition sanitizeTestId (tz : jsstring) : jsstring :=
  toLowerCase
    (replaceEach notKeyChar []
       (replaceRuns isWhiteSpace [HYPHEN]
          (replaceEach isSlash [HYPHEN] tz))).

Definition getAllTimeZones : list jsstring :=
  match intl P with
  | Some api =>
      match supportedValuesOf api with
      | Returns zones => zones
      | Throws => fallbackZones
      | NotAFunction => fallbackZones
      end
  | None => fallbackZones
  end.

(** [None]: one of the two [new Intl.DateTimeFormat] throws, before anything
    is formatted. *)
Definition formatForTimezone (timezone : jsstring) (now : Z) : option DisplayStrings :=
  match intl P with
  | Some api =>
      match zoneOffset api timezone with
      | Some offset =>
          let t := toLocalTime offset now in
          Some {| time := renderTime api (HourFromTime t) (MinFromTime t) (SecFromTime t);
                  date := renderDate api (Day t) |}
      | None => None
      end
  | None => None
  end.

Definition updateClock (now : Z) (s : state) : state * completion :=
  match formatForTimezone (selectedTimezone s) now with
  | Some d =>
      ({| selectedTimezone := selectedTimezone s;
          clockEl := time d;
          cityNameEl := cityNameEl s;
          dateEl := date d;
          coreCityButtons := coreCityButtons s;
          timezoneBarEl := timezoneBarEl s;
          intervalSet := intervalSet s |}, Normal)
  | None => (s, Thrown)
  end.

Definition markCity (sel : jsstring) (btn : cityButton) : cityButton :=
  if strictEqOpt (city_timezone btn) sel then
    {| city_timezone := city_timezone btn; city_active := true;
       city_ariaPressed := Some (js "true") |}
  else
    {| city_timezone := city_timezone btn; city_active := false;
       city_ariaPressed := Some (js "false") |}.

Definition markTz (sel : jsstring) (b : tzButton) : tzButton :=
  {| tz_timezone := tz_timezone b; tz_testid := tz_testid b;
     tz_textContent := tz_textContent b; tz_title := tz_title b;
     tz_active := if strictEq (tz_timezone b) sel then true else false |}.

Definition updateActiveStates (s : state) : state :=
  {| selectedTimezone := selectedTimezone s;
     clockEl := clockEl s;
     cityNameEl := cityNameEl s;
     dateEl := dateEl s;
     coreCityButtons := map (markCity (selectedTimezone s)) (coreCityButtons s);
     timezoneBarEl := map (markTz (selectedTimezone s)) (timezoneBarEl s);
     intervalSet := intervalSet s |}.

Definition updateCityName (s : state) : state :=
  {| selectedTimezone := selectedTimezone s;
     clockEl := clockEl s;
     cityNameEl := prettyLabelFromTimezone (selectedTimezone s);
     dateEl := dateEl s;
     coreCityButtons := coreCityButtons s;
     timezoneBarEl := timezoneBarEl s;
     intervalSet := intervalSet s |}.

Definition setSelectedTimezone (tz : jsstring) (s : state) : state :=
  {| selectedTimezone := tz;
     clockEl := clockEl s;
     cityNameEl := cityNameEl s;
     dateEl := dateEl s;
     coreCityButtons := coreCityButtons s;
     timezoneBarEl := timezoneBarEl s;
     intervalSet := intervalSet s |}.

Definition selectTimezone (tz : jsstring) (now : Z) (s : state) : state * completion :=
  updateClock now (updateActiveStates (updateCityName (setSelectedTimezone tz s))).

Definition newTzButton (tz : jsstring) : tzButton :=
  {| tz_timezone := tz;
     tz_testid := sanitizeTestId tz;
     tz_textContent := prettyLabelFromTimezone tz;
     tz_title := tz;
     tz_active := false |}.

Definition buildTimezoneBar (s : state) : state :=
  {| selectedTimezone := selectedTimezone s;
     clockEl := clockEl s;
     cityNameEl := cityNameEl s;
     dateEl := dateEl s;
     coreCityButtons := coreCityButtons s;
     timezoneBarEl := map newTzButton getAllTimeZones;
     intervalSet := intervalSet s |}.

Definition setInterval (s : state) : state :=
  {| selectedTimezone := selectedTimezone s;
     clockEl := clockEl s;
     cityNameEl := cityNameEl s;
     dateEl := dateEl s;
     coreCityButtons := coreCityButtons s;
     timezoneBarEl := timezoneBarEl s;
     intervalSet := true |}.

(** The state when the script starts to run: the module-level declarations. *)
Definition loaded (m : markup) : state :=
  {| selectedTimezone := defaultTimezone;
     clockEl := m_clock m;
     cityNameEl := m_cityName m;
     dateEl := m_date m;
     coreCityButtons := m_cities m;
     timezoneBarEl := [];
     intervalSet := false |}.

(** [init()].  [initCoreButtons] only registers listeners, which [dispatch]
    below runs; when [updateClock] throws, [setInterval] is not reached. *)
Definition init (m : markup) (now : Z) : state * completion :=
  let s1 := buildTimezoneBar (loaded m) in
  let s2 := updateActiveStates (updateCityName s1) in
  match updateClock now s2 with
  | (s3, Normal) => (setInterval s3, Normal)
  | (s3, Thrown) => (s3, Thrown)
  end.

(** ** Events after [init] *)

(** A click on the [i]-th [.city] button, a click on the [i]-th button of the
    timezone bar, a tick of the interval timer. *)
Inductive event :=
| ClickCity (i : nat)
| ClickTz (i : nat)
| TimerTick.

(** One turn of the event loop: the listener of the event runs to its end
    (or to its exception) at the instant [now].  The listener of a bar button
    closes over the [tz] its [data-timezone] was set from. *)
Definition dispatch (e : event) (now : Z) (s : state) : state :=
  match e with
  | ClickCity i =>
      match nth_error (coreCityButtons s) i with
      | Some btn =>
          match city_timezone btn with
          | Some tz => if truthy tz then fst (selectTimezone tz now s) else s
          | None => s
          end
      | None => s
      end
  | ClickTz i =>
      match nth_error (timezoneBarEl s) i with
      | Some btn => fst (selectTimezone (tz_timezone btn) now s)
      | None => s
      end
  | TimerTick =>
      if intervalSet s then fst (updateClock now s) else s
  end.

Fixpoint run (evs : list (event * Z)) (s : state) : state :=
  match evs with
  | [] => s
  | (e, now) :: rest => run rest (dispatch e now s)
  end.

(** The states the page can be in: [init] at some instant, then any events. *)
Definition reachable (m : markup) (s : state) : Prop :=
  exists now evs, s = run evs (fst (init m now)).

(** The controls marked active. *)
Definition activeCities (s : state) : list cityButton :=
  filter city_active (coreCityButtons s).

Definition activeTzButtons (s : state) : list tzButton :=
  filter tz_active (timezoneBarEl s).

Definition activeCount (s : state) : nat :=
  length (activeCities s) + length (activeTzButtons s).

End Script.

(** ** What the claims are stated with *)

(** [seg] is the part of [s] after its last separator: all of [s] when it has
    none. *)
Definition finalSegment (s seg : jsstring) : Prop :=
  ~ In SLASH seg /\ (s = seg \/ exists pre, s = pre ++ SLASH :: seg).

Definition underscoreToSpace (c : N) : N := if isUnderscore c then SPACE else c.
Definition slashToHyphen (c : N) : N := if isSlash c then HYPHEN else c.

(** The key of one code unit that is not whitespace. *)
Definition keyUnit (c : N) : jsstring :=
  if isSlash c then [HYPHEN]
  else if isKeyChar c then [lowerAscii c]
  else [].

Definition startsWithSpace (s : jsstring) : bool :=
  match s with
  | c :: _ => isWhiteSpace c
  | [] => false
  end.

(** The shape of a time-zone identifier, as the time-zone database names
    zones: components separated by [/], none of them empty, made of ASCII
    letters, digits, [_], [-] and [+]; the first component (the area, or the
    whole name of a one-component zone such as [UTC] or [GB-Eire]) has no
    underscore. *)
Definition isZoneChar (c : N) : bool :=
  isUpper c || isLower c || isDigit c
  || N.eqb c UNDERSCORE || N.eqb c HYPHEN || N.eqb c 43.

Definition isZoneComponent (seg : jsstring) : bool :=
  truthy seg && forallb isZoneChar seg.

Definition isZoneId (tz : jsstring) : bool :=
  match split SLASH tz with
  | area :: rest =>
      isZoneComponent area && negb (existsb isUnderscore area)
      && forallb isZoneComponent rest
  | [] => false
  end.

(** The alphabet of a key: [[a-z0-9-_]]. *)
Definition isKeyOut (c : N) : bool :=
  isLower c || isDigit c || N.eqb c HYPHEN || N.eqb c UNDERSCORE.

(** The identifiers a control of the page can hand to [selectTimezone]:
    the catalog entries (bar buttons) and the [data-timezone] values of the
    markup's [.city] buttons. *)
Definition cityZones (m : markup) : list (option jsstring) :=
  map city_timezone (m_cities m).

Section Rendering.

Variable P : platform.

(** The page shows the selection: label, highlighting of both button rows. *)
Definition rendered (m : markup) (s : state) : Prop :=
  cityNameEl s = prettyLabelFromTimezone (selectedTimezone s)
  /\ coreCityButtons s = map (markCity (selectedTimezone s)) (m_cities m)
  /\ timezoneBarEl s =
     map (markTz (selectedTimezone s)) (map (newTzButton P) (getAllTimeZones P)).

Definition fromControl (m : markup) (tz : jsstring) : Prop :=
  tz = defaultTimezone
  \/ In tz (getAllTimeZones P)
  \/ (In (Some tz) (cityZones m) /\ truthy tz = true).

End Rendering.

(** The list [Intl.supportedValuesOf('timeZone')] returns, when it is there
    and returns. *)
Definition platformZones (P : platform) : option (list jsstring) :=
  match intl P with
  | Some api =>
      match supportedValuesOf api with
      | Returns zones => Some zones
      | Throws => None
      | NotAFunction => None
      end
  | None => None
  end.

(** What a runtime promises of its enumeration: when it returns, the list
    is not empty and names no zone twice. *)
Definition conformingEnumeration (P : platform) : Prop :=
  forall zones, platformZones P = Some zones -> zones <> [] /\ NoDup zones.

(** ** Sample runtimes and pages *)

Definition digit (n : Z) : N := (48 + Z.to_N n)%N.
Definition twoDigits (n : Z) : jsstring := [digit (n / 10); digit (n mod 10)]%Z.

(** [Intl] of a runtime that knows three zones and renders [HH:MM:SS]. *)
Definition sampleIntl (enumeration : supportedValuesOfT) : IntlT :=
  {| supportedValuesOf := enumeration;
     zoneOffset := fun tz =>
       if strictEq tz (js "UTC") then Some (fun _ => 0%Z)
       else if strictEq tz (js "Australia/Brisbane") then Some (fun _ => 36000%Z)
       else if strictEq tz (js "Asia/Singapore") then Some (fun _ => 28800%Z)
       else None;
     renderTime := fun h m s =>
       twoDigits h ++ [58%N] ++ twoDigits m ++ [58%N] ++ twoDigits s;
     renderDate := fun d => twoDigits (d mod 100) |}.

(** A runtime without [Intl.supportedValuesOf]. *)
Definition legacyRuntime : platform :=
  {| intl := Some (sampleIntl NotAFunction); unicodeLower := fun s => s |}.

(** A runtime whose enumeration returns its three zones, sorted. *)
Definition modernRuntime : platform :=
  {| intl := Some (sampleIntl
                     (Returns [js "Asia/Singapore"; js "Australia/Brisbane"; js "UTC"]));
     unicodeLower := fun s => s |}.

Definition cityFor (tz : string) : cityButton :=
  {| city_timezone := Some (js tz); city_active := false; city_ariaPressed := None |}.

(** A page whose top row offers UTC and Singapore. *)
Definition samplePage : markup :=
  {| m_clock := []; m_cityName := []; m_date := [];
     m_cities := [cityFor "UTC"; cityFor "Asia/Singapore"] |}.

(** A page without top-row buttons. *)
Definition barePage : markup :=
  {| m_clock := []; m_cityName := []; m_date := []; m_cities := [] |}.

(** ** The helpers on sample inputs *)

Example split_segments :
  split SLASH (js "America/Argentina/Ushuaia") =
  [js "America"; js "Argentina"; js "Ushuaia"].
Proof. reflexivity. Qed.

Example split_empty : split SLASH [] = [[]].
Proof. reflexivity. Qed.

Example split_trailing : split SLASH (js "Europe/") = [js "Europe"; []].
Proof. reflexivity. Qed.

Example label_three_segments :
  prettyLabelFromTimezone (js "America/Argentina/Buenos_Aires") = js "Buenos Aires".
Proof. reflexivity. Qed.

Example zone_id_shape :
  isZoneId (js "America/Argentina/Buenos_Aires") = true
  /\ isZoneId (js "Etc/GMT+10") = true
  /\ isZoneId (js "GB-Eire") = true
  /\ isZoneId (js "A_B") = false
  /\ isZoneId (js "Europe/") = false
  /\ isZoneId [] = false.
Proof. repeat split. Qed.

Example runs_collapse :
  replaceRuns isWhiteSpace [HYPHEN] (js "a  b c") = js "a-b-c".
Proof. reflexivity. Qed.

Example key_drops_plus :
  sanitizeTestId legacyRuntime (js "Etc/GMT+10") = js "etc-gmt10".
Proof. reflexivity. Qed.

Example key_keeps_underscore :
  sanitizeTestId legacyRuntime (js "America/New_York") = js "america-new_york".
Proof. reflexivity. Qed.

Example clock_at_midnight_utc :
  formatForTimezone legacyRuntime (js "Australia/Brisbane") 0 =
  Some {| time := js "10:00:00"; date := js "00" |}.
Proof. reflexivity. Qed.

Example unknown_zone_throws :
  formatForTimezone legacyRuntime (js "Mars/Olympus") 0 = None.
Proof. reflexivity. Qed.

Example init_shows_default :
  let s := fst (init legacyRuntime samplePage 0) in
  cityNameEl s = js "Brisbane" /\ clockEl s = js "10:00:00"
  /\ intervalSet s = true /\ activeCount s = 1.
Proof. repeat split. Qed.

(** ** Strings: equality, [replace], [split] and [pop] *)

Lemma strictEq_refl (a : jsstring) : strictEq a a = true.
Proof.
  induction a as [|x a IH]; simpl; [reflexivity|].
  now rewrite N.eqb_refl, IH.
Qed.

Lemma strictEq_eq (a b : jsstring) : strictEq a b = true <-> a = b.
Proof.
  split.
  - revert b; induction a as [|x a IH]; intros [|y b] H; simpl in H;
      try discriminate; [reflexivity|].
    apply andb_true_iff in H as [Hxy Hab].
    apply N.eqb_eq in Hxy. apply IH in Hab. now subst.
  - intros ->. apply strictEq_refl.
Qed.

Lemma strictEq_neq (a b : jsstring) : strictEq a b = false <-> a <> b.
Proof.
  rewrite <- strictEq_eq. destruct (strictEq a b); split; congruence.
Qed.

Lemma strictEqOpt_eq (x : option jsstring) (b : jsstring) :
  strictEqOpt x b = true <-> x = Some b.
Proof.
  destruct x as [a|]; simpl.
  - rewrite strictEq_eq. split; congruence.
  - split; discriminate.
Qed.

Lemma replaceEach_unit (cls : N -> bool) (x : N) (s : jsstring) :
  replaceEach cls [x] s = map (fun c => if cls c then x else c) s.
Proof.
  induction s as [|c r IH]; simpl; [reflexivity|].
  rewrite IH. now destruct (cls c).
Qed.

Lemma replaceEach_empty (cls : N -> bool) (s : jsstring) :
  replaceEach cls [] s = filter (fun c => negb (cls c)) s.
Proof.
  induction s as [|c r IH]; simpl; [reflexivity|].
  rewrite IH. now destruct (cls c).
Qed.

Lemma replaceEach_id (cls : N -> bool) (rep s : jsstring) :
  (forall c, In c s -> cls c = false) -> replaceEach cls rep s = s.
Proof.
  induction s as [|c r IH]; intros H; simpl; [reflexivity|].
  rewrite (H c) by now left.
  f_equal. apply IH. intros d Hd. apply H. now right.
Qed.

Lemma replaceRunsFrom_id (cls : N -> bool) (rep s : jsstring) (inRun : bool) :
  (forall c, In c s -> cls c = false) -> replaceRunsFrom cls rep inRun s = s.
Proof.
  revert inRun; induction s as [|c r IH]; intros inRun H; simpl; [reflexivity|].
  rewrite (H c) by now left.
  f_equal. apply IH. intros d Hd. apply H. now right.
Qed.

(** A run is replaced by one copy of the replacement: the units outside the
    class are kept, in order. *)
Lemma replaceRunsFrom_In (cls : N -> bool) (x : N) (s : jsstring) (inRun : bool) (c : N) :
  In c (replaceRunsFrom cls [x] inRun s) -> c = x \/ (In c s /\ cls c = false).
Proof.
  revert inRun; induction s as [|d r IH]; intros inRun H; simpl in H; [contradiction|].
  destruct (cls d) eqn:Hd.
  - destruct inRun; simpl in H.
    + apply IH in H as [->|[Hin Hc]]; [now left|right; split; [now right|assumption]].
    + destruct H as [<-|H]; [now left|].
      apply IH in H as [->|[Hin Hc]]; [now left|right; split; [now right|assumption]].
  - destruct H as [<-|H]; [right; split; [now left|assumption]|].
    apply IH in H as [->|[Hin Hc]]; [now left|right; split; [now right|assumption]].
Qed.

Lemma split_not_nil (sep : N) (s : jsstring) : split sep s <> [].
Proof.
  destruct s as [|c r]; simpl; [discriminate|].
  destruct (N.eqb c sep); [discriminate|].
  destruct (split sep r); discriminate.
Qed.

Lemma split_no_sep (sep : N) (s : jsstring) : ~ In sep s -> split sep s = [s].
Proof.
  induction s as [|c r IH]; intros H; simpl; [reflexivity|].
  destruct (N.eqb_spec c sep) as [->|Hc]; [exfalso; apply H; now left|].
  rewrite IH; [reflexivity|]. intros Hin. apply H. now right.
Qed.

Lemma split_app_sep (sep : N) (pre rest : jsstring) :
  split sep (pre ++ sep :: rest) = split sep pre ++ split sep rest.
Proof.
  induction pre as [|c pre IH]; simpl.
  - now rewrite N.eqb_refl.
  - rewrite IH. destruct (N.eqb c sep); [reflexivity|].
    destruct (split sep pre) as [|seg segs] eqn:E; [|reflexivity].
    now apply split_not_nil in E.
Qed.

Lemma pop_app (A : Type) (l1 l2 : list A) : l2 <> [] -> pop (l1 ++ l2) = pop l2.
Proof.
  intros H. induction l1 as [|x l1 IH]; [reflexivity|].
  change ((x :: l1) ++ l2) with (x :: (l1 ++ l2)).
  destruct (l1 ++ l2) as [|y l] eqn:E.
  - destruct l1; [simpl in E; contradiction|discriminate].
  - simpl. simpl in IH. exact IH.
Qed.


Lemma pop_split_final (s seg : jsstring) :
  finalSegment s seg -> pop (split SLASH s) = Some seg.
Proof.
  intros [Hno [->|[pre ->]]].
  - now rewrite split_no_sep.
  - rewrite split_app_sep, pop_app by apply split_not_nil.
    now rewrite split_no_sep.
Qed.

(** Every string has a final segment, the one [split] and [pop] find. *)
Lemma pop_split_exists (s : jsstring) :
  exists seg, pop (split SLASH s) = Some seg /\ finalSegment s seg.
Proof.
  induction s as [|c r [seg [Hpop Hfin]]].
  - exists []. split; [reflexivity|]. split; [intros []|now left].
  - destruct (N.eqb_spec c SLASH) as [->|Hc].
    + exists seg. split.
      * simpl. destruct (split SLASH r) eqn:E; [now apply split_not_nil in E|exact Hpop].
      * destruct Hfin as [Hno [->|[pre ->]]]; split; try assumption; right.
        -- now exists [].
        -- now exists (SLASH :: pre).
    + destruct Hfin as [Hno [->|[pre ->]]].
      * exists (c :: seg). split.
        -- simpl. apply N.eqb_neq in Hc. rewrite Hc.
           now rewrite split_no_sep.
        -- split; [|now left]. intros [E|E]; [congruence|contradiction].
      * exists seg. split; [|split; [assumption|right; now exists (c :: pre)]].
        apply (@pop_split_final (c :: pre ++ SLASH :: seg) seg).
        split; [assumption|right; now exists (c :: pre)].
Qed.

Lemma prettyLabel_final (tz seg : jsstring) :
  finalSegment tz seg ->
  prettyLabelFromTimezone tz = if truthy seg then map underscoreToSpace seg else tz.
Proof.
  intros H. unfold prettyLabelFromTimezone.
  rewrite (pop_split_final H).
  destruct (truthy seg); [|reflexivity].
  apply replaceEach_unit.
Qed.

(** ** Character classes *)

Ltac char_facts :=
  unfold isKeyOut, isKeyChar, notKeyChar, isWhiteSpace, isSlash, isUnderscore,
    isAscii, isUpper, isLower, isDigit, between,
    SLASH, HYPHEN, UNDERSCORE, SPACE in *;
  repeat match goal with
         | H : negb _ = true |- _ => apply negb_true_iff in H
         | H : negb _ = false |- _ => apply negb_false_iff in H
         | H : _ = false |- _ => apply not_true_iff_false in H
         | |- _ = false => apply not_true_iff_false
         end;
  repeat rewrite ?orb_true_iff, ?andb_true_iff, ?N.leb_le, ?N.eqb_eq, ?N.ltb_lt in *.

Lemma keyChar_ascii (c : N) : isKeyChar c = true -> isAscii c = true.
Proof. intros H. char_facts. lia. Qed.

Lemma keyChar_not_slash (c : N) : isKeyChar c = true -> isSlash c = false.
Proof. intros H. char_facts. lia. Qed.

Lemma keyChar_not_space (c : N) : isKeyChar c = true -> isWhiteSpace c = false.
Proof. intros H. char_facts. lia. Qed.

Lemma keyOut_keyChar (c : N) : isKeyOut c = true -> isKeyChar c = true.
Proof. intros H. char_facts. lia. Qed.

Lemma keyOut_not_upper (c : N) : isKeyOut c = true -> isUpper c = false.
Proof. intros H. char_facts. lia. Qed.

Lemma lowerAscii_keyOut (c : N) : isKeyChar c = true -> isKeyOut (lowerAscii c) = true.
Proof.
  intros H. unfold lowerAscii. destruct (isUpper c) eqn:U; char_facts; lia.
Qed.

Lemma lowerAscii_id (c : N) : isUpper c = false -> lowerAscii c = c.
Proof. intros H. unfold lowerAscii. now rewrite H. Qed.

(** ** [sanitizeTestId] *)

Section Keys.

Variable P : platform.

(** On the strings [sanitizeTestId] lowers, [toLowerCase] is the ASCII rule,
    whatever the runtime's tables are. *)
Lemma toLowerCase_key (s : jsstring) :
  forallb isKeyChar s = true -> toLowerCase P s = map lowerAscii s.
Proof.
  intros H. unfold toLowerCase.
  replace (forallb isAscii s) with true; [reflexivity|].
  symmetry. rewrite forallb_forall in *.
  intros c Hc. apply keyChar_ascii. now apply H.
Qed.

Lemma stripped_keyChars (s : jsstring) :
  forallb isKeyChar (replaceEach notKeyChar [] s) = true.
Proof.
  rewrite replaceEach_empty. apply forallb_forall.
  intros c Hc. apply filter_In in Hc as [_ Hc].
  unfold notKeyChar in Hc. now rewrite negb_involutive in Hc.
Qed.

Lemma sanitizeTestId_pipeline (tz : jsstring) :
  sanitizeTestId P tz =
  map lowerAscii
    (filter isKeyChar
       (replaceRuns isWhiteSpace [HYPHEN] (map slashToHyphen tz))).
Proof.
  unfold sanitizeTestId.
  rewrite toLowerCase_key by apply stripped_keyChars.
  rewrite replaceEach_empty, replaceEach_unit.
  f_equal. apply filter_ext. intros c. unfold notKeyChar. apply negb_involutive.
Qed.

Lemma sanitizeTestId_keyOut (tz : jsstring) :
  forallb isKeyOut (sanitizeTestId P tz) = true.
Proof.
  rewrite sanitizeTestId_pipeline. apply forallb_forall.
  intros c Hc. apply in_map_iff in Hc as [d [<- Hd]].
  apply filter_In in Hd as [_ Hd]. now apply lowerAscii_keyOut.
Qed.

Lemma sanitizeTestId_fixes_keys (k : jsstring) :
  forallb isKeyOut k = true -> sanitizeTestId P k = k.
Proof.
  intros H. rewrite forallb_forall in H.
  rewrite sanitizeTestId_pipeline.
  assert (Hmap : map slashToHyphen k = k).
  { rewrite <- (map_id k) at 2. apply map_ext_in. intros c Hc.
    unfold slashToHyphen.
    now rewrite (keyChar_not_slash _ (keyOut_keyChar _ (H c Hc))). }
  rewrite Hmap. unfold replaceRuns. rewrite replaceRunsFrom_id.
  2:{ intros c Hc. apply keyChar_not_space, keyOut_keyChar. now apply H. }
  assert (Hfil : filter isKeyChar k = k).
  { apply forallb_filter_id. apply forallb_forall.
    intros c Hc. apply keyOut_keyChar. now apply H. }
  rewrite Hfil. rewrite <- (map_id k) at 2. apply map_ext_in.
  intros c Hc. apply lowerAscii_id, keyOut_not_upper. now apply H.
Qed.

(** What the three replacements and the lowering do to one code unit. *)
Lemma sanitizeTestId_unit (c : N) :
  sanitizeTestId P [c] =
  if isSlash c || isWhiteSpace c then [HYPHEN]
  else if isKeyChar c then [lowerAscii c]
  else [].
Proof.
  rewrite sanitizeTestId_pipeline. unfold replaceRuns, slashToHyphen. simpl.
  destruct (isSlash c) eqn:Hs; simpl.
  - reflexivity.
  - destruct (isWhiteSpace c) eqn:Hw; simpl; [reflexivity|].
    now destruct (isKeyChar c).
Qed.

Lemma slashToHyphen_space (c : N) :
  isWhiteSpace (slashToHyphen c) = isWhiteSpace c.
Proof.
  unfold slashToHyphen. destruct (isSlash c) eqn:E; [|reflexivity].
  apply N.eqb_eq in E. now subst c.
Qed.

Lemma replaceRunsFrom_outside_run (rep s : jsstring) :
  startsWithSpace s = false ->
  replaceRunsFrom isWhiteSpace rep true s = replaceRunsFrom isWhiteSpace rep false s.
Proof.
  destruct s as [|c r]; [reflexivity|]. simpl. now intros ->.
Qed.

(** The key, unit by unit: a unit that is not whitespace gives its own key;
    a whitespace unit gives one hyphen, unless whitespace follows it, in
    which case the run it starts is the run that follows. *)
Lemma sanitizeTestId_cons (c : N) (r : jsstring) :
  sanitizeTestId P (c :: r) =
  if isWhiteSpace c then
    if startsWithSpace r then sanitizeTestId P r
    else HYPHEN :: sanitizeTestId P r
  else keyUnit c ++ sanitizeTestId P r.
Proof.
  rewrite !sanitizeTestId_pipeline. unfold replaceRuns. cbn [map replaceRunsFrom].
  rewrite slashToHyphen_space. destruct (isWhiteSpace c) eqn:W.
  - destruct r as [|d r]; [reflexivity|].
    cbn [map replaceRunsFrom startsWithSpace app].
    rewrite slashToHyphen_space. destruct (isWhiteSpace d); reflexivity.
  - unfold keyUnit, slashToHyphen. destruct (isSlash c); [reflexivity|].
    cbn [filter]. destruct (isKeyChar c); reflexivity.
Qed.

End Keys.

(** ** Lists of buttons *)

Lemma filter_map_swap (A B : Type) (f : B -> bool) (g : A -> B) (l : list A) :
  filter f (map g l) = map g (filter (fun x => f (g x)) l).
Proof.
  induction l as [|x l IH]; simpl; [reflexivity|].
  rewrite IH. now destruct (f (g x)).
Qed.

Lemma filter_absent (t : jsstring) (l : list jsstring) :
  ~ In t l -> filter (fun z => strictEq z t) l = [].
Proof.
  induction l as [|x l IH]; intros H; simpl; [reflexivity|].
  destruct (strictEq x t) eqn:E.
  - apply strictEq_eq in E. exfalso. apply H. now left.
  - apply IH. intros Hin. apply H. now right.
Qed.

Lemma filter_unique (t : jsstring) (l : list jsstring) :
  NoDup l -> In t l -> filter (fun z => strictEq z t) l = [t].
Proof.
  induction 1 as [|x l Hx Hnd IH]; intros Hin; [contradiction|].
  simpl. destruct (strictEq x t) eqn:E.
  - apply strictEq_eq in E. subst x. now rewrite filter_absent.
  - apply strictEq_neq in E. destruct Hin as [->|Hin]; [congruence|]. now apply IH.
Qed.

Lemma filter_present (t : jsstring) (l : list jsstring) :
  In t l -> filter (fun z => strictEq z t) l <> [].
Proof.
  intros Hin E.
  assert (H : In t (filter (fun z => strictEq z t) l)).
  { apply filter_In. split; [assumption|apply strictEq_refl]. }
  now rewrite E in H.
Qed.

(** ** Rendering *)

Section Page.

Variable P : platform.

Lemma markCity_timezone (sel : jsstring) (b : cityButton) :
  city_timezone (markCity sel b) = city_timezone b.
Proof. unfold markCity. now destruct (strictEqOpt (city_timezone b) sel). Qed.

Lemma markCity_active (sel : jsstring) (b : cityButton) :
  city_active (markCity sel b) = strictEqOpt (city_timezone b) sel.
Proof. unfold markCity. now destruct (strictEqOpt (city_timezone b) sel). Qed.

Lemma markCity_again (sel sel' : jsstring) (b : cityButton) :
  markCity sel (markCity sel' b) = markCity sel b.
Proof.
  unfold markCity at 1 3. rewrite markCity_timezone.
  now destruct (strictEqOpt (city_timezone b) sel).
Qed.

Lemma markTz_again (sel sel' : jsstring) (b : tzButton) :
  markTz sel (markTz sel' b) = markTz sel b.
Proof. reflexivity. Qed.

Lemma markTz_active (sel : jsstring) (b : tzButton) :
  tz_active (markTz sel b) = strictEq (tz_timezone b) sel.
Proof. unfold markTz; simpl. now destruct (strictEq (tz_timezone b) sel). Qed.

Lemma map_markCity_again (sel sel' : jsstring) (l : list cityButton) :
  map (markCity sel) (map (markCity sel') l) = map (markCity sel) l.
Proof. rewrite map_map. apply map_ext. intros b. apply markCity_again. Qed.

Lemma map_markTz_again (sel sel' : jsstring) (l : list tzButton) :
  map (markTz sel) (map (markTz sel') l) = map (markTz sel) l.
Proof. rewrite map_map. apply map_ext. intros b. apply markTz_again. Qed.

(** Whether [formatForTimezone] throws is decided by the zone alone. *)
Lemma formatForTimezone_throws (tz : jsstring) (i j : Z) :
  formatForTimezone P tz i = None -> formatForTimezone P tz j = None.
Proof.
  unfold formatForTimezone.
  destruct (intl P) as [api|]; [|reflexivity].
  destruct (zoneOffset api tz); [discriminate|reflexivity].
Qed.

(** [updateClock] writes [#clock] and [#date] only. *)
Lemma updateClock_frame (now : Z) (s : state) :
  let s' := fst (updateClock P now s) in
  selectedTimezone s' = selectedTimezone s
  /\ cityNameEl s' = cityNameEl s
  /\ coreCityButtons s' = coreCityButtons s
  /\ timezoneBarEl s' = timezoneBarEl s
  /\ intervalSet s' = intervalSet s.
Proof.
  unfold updateClock.
  destruct (formatForTimezone P (selectedTimezone s) now); simpl; repeat split.
Qed.

Lemma selectTimezone_fields (tz : jsstring) (now : Z) (s : state) :
  let s' := fst (selectTimezone P tz now s) in
  selectedTimezone s' = tz
  /\ cityNameEl s' = prettyLabelFromTimezone tz
  /\ coreCityButtons s' = map (markCity tz) (coreCityButtons s)
  /\ timezoneBarEl s' = map (markTz tz) (timezoneBarEl s)
  /\ intervalSet s' = intervalSet s.
Proof.
  unfold selectTimezone.
  destruct (updateClock_frame now
              (updateActiveStates (updateCityName (setSelectedTimezone tz s))))
    as (H1 & H2 & H3 & H4 & H5).
  simpl in *. now rewrite H1, H2, H3, H4, H5.
Qed.

Lemma selectTimezone_again (tz : jsstring) (now now' : Z) (s : state) :
  selectTimezone P tz now' (fst (selectTimezone P tz now s)) = selectTimezone P tz now' s.
Proof.
  unfold selectTimezone, updateClock; simpl.
  destruct (formatForTimezone P tz now) as [d|] eqn:E;
    destruct (formatForTimezone P tz now') as [d'|] eqn:E'; simpl.
  - now rewrite map_markCity_again, map_markTz_again.
  - apply formatForTimezone_throws with (j := now) in E'. congruence.
  - apply formatForTimezone_throws with (j := now') in E. congruence.
  - unfold updateActiveStates, updateCityName, setSelectedTimezone; simpl.
    now rewrite map_markCity_again, map_markTz_again.
Qed.

(** ** Reachable states *)

Lemma updateClock_rendered (m : markup) (now : Z) (s : state) :
  rendered P m s -> rendered P m (fst (updateClock P now s)).
Proof.
  destruct (updateClock_frame now s) as (H1 & H2 & H3 & H4 & _).
  unfold rendered. now rewrite H1, H2, H3, H4.
Qed.

Lemma selectTimezone_rendered (m : markup) (tz : jsstring) (now : Z) (s : state) :
  rendered P m s -> rendered P m (fst (selectTimezone P tz now s)).
Proof.
  intros (_ & Hc & Hb).
  destruct (selectTimezone_fields tz now s) as (H1 & H2 & H3 & H4 & _).
  unfold rendered. rewrite H1, H2, H3, H4, Hc, Hb.
  now rewrite map_markCity_again, map_markTz_again.
Qed.

Lemma init_rendered (m : markup) (now : Z) :
  rendered P m (fst (init P m now))
  /\ selectedTimezone (fst (init P m now)) = defaultTimezone.
Proof.
  unfold init.
  set (s2 := updateActiveStates (updateCityName (buildTimezoneBar P (loaded m)))).
  assert (H2 : rendered P m s2 /\ selectedTimezone s2 = defaultTimezone).
  { split; [|reflexivity]. repeat split. }
  destruct H2 as [Hr Hs].
  pose proof (updateClock_rendered now Hr) as Hr'.
  destruct (updateClock_frame now s2) as (H1 & _).
  destruct (updateClock P now s2) as [s3 [|]]; simpl in *.
  - split; [|congruence]. exact Hr'.
  - split; [exact Hr'|congruence].
Qed.

Lemma city_click_source (m : markup) (s : state) (i : nat) (btn : cityButton) :
  rendered P m s -> nth_error (coreCityButtons s) i = Some btn ->
  In (city_timezone btn) (cityZones m).
Proof.
  intros (_ & Hc & _) Hn. apply nth_error_In in Hn. rewrite Hc in Hn.
  apply in_map_iff in Hn as [b0 [<- Hb0]].
  rewrite markCity_timezone. unfold cityZones. now apply in_map.
Qed.

Lemma tz_click_source (m : markup) (s : state) (i : nat) (btn : tzButton) :
  rendered P m s -> nth_error (timezoneBarEl s) i = Some btn ->
  In (tz_timezone btn) (getAllTimeZones P).
Proof.
  intros (_ & _ & Hb) Hn. apply nth_error_In in Hn. rewrite Hb in Hn.
  apply in_map_iff in Hn as [b1 [<- Hb1]].
  apply in_map_iff in Hb1 as [z [<- Hz]]. exact Hz.
Qed.

Lemma dispatch_rendered (m : markup) (e : event) (now : Z) (s : state) :
  rendered P m s -> rendered P m (dispatch P e now s).
Proof.
  intros Hr. destruct e as [i|i|]; simpl.
  - destruct (nth_error (coreCityButtons s) i) as [btn|]; [|assumption].
    destruct (city_timezone btn) as [tz|]; [|assumption].
    destruct (truthy tz); [|assumption].
    now apply selectTimezone_rendered.
  - destruct (nth_error (timezoneBarEl s) i) as [btn|]; [|assumption].
    now apply selectTimezone_rendered.
  - destruct (intervalSet s); [|assumption].
    now apply updateClock_rendered.
Qed.

Lemma dispatch_fromControl (m : markup) (e : event) (now : Z) (s : state) :
  rendered P m s -> fromControl P m (selectedTimezone s) ->
  fromControl P m (selectedTimezone (dispatch P e now s)).
Proof.
  intros Hr Hf. destruct e as [i|i|]; simpl.
  - destruct (nth_error (coreCityButtons s) i) as [btn|] eqn:Hn; [|assumption].
    destruct (city_timezone btn) as [tz|] eqn:Htz; [|assumption].
    destruct (truthy tz) eqn:Ht; [|assumption].
    destruct (selectTimezone_fields tz now s) as (H1 & _). rewrite H1.
    right; right. split; [|assumption].
    rewrite <- Htz. eapply city_click_source; eassumption.
  - destruct (nth_error (timezoneBarEl s) i) as [btn|] eqn:Hn; [|assumption].
    destruct (selectTimezone_fields (tz_timezone btn) now s) as (H1 & _). rewrite H1.
    right; left. eapply tz_click_source; eassumption.
  - destruct (intervalSet s); [|assumption].
    destruct (updateClock_frame now s) as (H1 & _). now rewrite H1.
Qed.

Lemma run_invariant (m : markup) (evs : list (event * Z)) (s : state) :
  rendered P m s /\ fromControl P m (selectedTimezone s) ->
  rendered P m (run P evs s) /\ fromControl P m (selectedTimezone (run P evs s)).
Proof.
  revert s; induction evs as [|[e now] evs IH]; intros s [Hr Hf]; simpl.
  - now split.
  - apply IH. split.
    + now apply dispatch_rendered.
    + now apply dispatch_fromControl.
Qed.

Lemma reachable_invariant (m : markup) (s : state) :
  reachable P m s -> rendered P m s /\ fromControl P m (selectedTimezone s).
Proof.
  intros (now & evs & ->).
  apply run_invariant.
  destruct (init_rendered m now) as [Hr Hs].
  split; [exact Hr|]. rewrite Hs. now left.
Qed.

(** The bar buttons marked active after a selection, read off the catalog. *)
Lemma activeTzButtons_select (m : markup) (s : state) (t : jsstring) (now : Z) :
  rendered P m s ->
  activeTzButtons (fst (selectTimezone P t now s)) =
  map (fun z => markTz t (newTzButton P z))
      (filter (fun z => strictEq z t) (getAllTimeZones P)).
Proof.
  intros (_ & _ & Hb). unfold activeTzButtons.
  destruct (selectTimezone_fields t now s) as (_ & _ & _ & H4 & _).
  rewrite H4, Hb, map_markTz_again, map_map, filter_map_swap.
  f_equal. apply filter_ext. intros z. apply markTz_active.
Qed.

Lemma activeCities_select (m : markup) (s : state) (t : jsstring) (now : Z) :
  rendered P m s ->
  activeCities (fst (selectTimezone P t now s)) =
  map (markCity t)
      (filter (fun b => strictEqOpt (city_timezone b) t) (m_cities m)).
Proof.
  intros (_ & Hc & _). unfold activeCities.
  destruct (selectTimezone_fields t now s) as (_ & _ & H3 & _).
  rewrite H3, Hc, map_markCity_again, filter_map_swap.
  f_equal. apply filter_ext. intros b. apply markCity_active.
Qed.

End Page.

(** ** The fallback catalog *)

Lemma fallbackZones_NoDup : NoDup fallbackZones.
Proof.
  unfold fallbackZones. simpl.
  repeat (constructor;
          [ intros H; simpl in H;
            repeat (destruct H as [H|H]; [discriminate H|]); exact H | ]).
  constructor.
Qed.

Lemma fallbackZones_default : In defaultTimezone fallbackZones.
Proof. right; left; reflexivity. Qed.

Lemma fallbackZones_UTC : In (js "UTC") fallbackZones.
Proof. unfold fallbackZones. apply in_map. simpl. repeat (first [left; reflexivity | right]). Qed.

Lemma getAllTimeZones_platform (P : platform) :
  getAllTimeZones P =
  match platformZones P with
  | Some zones => zones
  | None => fallbackZones
  end.
Proof.
  unfold getAllTimeZones, platformZones.
  destruct (intl P) as [api|]; [|reflexivity].
  now destruct (supportedValuesOf api).
Qed.

(** ** Time values within one second *)

Local Open Scope Z_scope.

Lemma clockSecond_local (offset : Z -> Z) (t : Z) :
  clockSecond (toLocalTime offset t) = clockSecond t + offset (clockSecond t).
Proof.
  unfold toLocalTime, clockSecond, msPerSecond.
  rewrite (Z.mul_comm 1000). now rewrite Z.div_add.
Qed.

Lemma fields_by_second (t : Z) :
  HourFromTime t = (clockSecond t / 3600) mod 24
  /\ MinFromTime t = (clockSecond t / 60) mod 60
  /\ SecFromTime t = clockSecond t mod 60
  /\ Day t = clockSecond t / 86400.
Proof.
  unfold HourFromTime, MinFromTime, SecFromTime, Day, clockSecond,
    msPerHour, msPerMinute, msPerSecond, msPerDay.
  rewrite !Z.div_div by lia. repeat split.
Qed.

Lemma local_fields_by_second (offset : Z -> Z) (i j : Z) :
  clockSecond i = clockSecond j ->
  HourFromTime (toLocalTime offset i) = HourFromTime (toLocalTime offset j)
  /\ MinFromTime (toLocalTime offset i) = MinFromTime (toLocalTime offset j)
  /\ SecFromTime (toLocalTime offset i) = SecFromTime (toLocalTime offset j)
  /\ Day (toLocalTime offset i) = Day (toLocalTime offset j).
Proof.
  intros H.
  destruct (fields_by_second (toLocalTime offset i)) as (Hh & Hm & Hs & Hd).
  destruct (fields_by_second (toLocalTime offset j)) as (Hh' & Hm' & Hs' & Hd').
  rewrite Hh, Hm, Hs, Hd, Hh', Hm', Hs', Hd', !clockSecond_local, H.
  repeat split.
Qed.

Local Close Scope Z_scope.

(** * The claims *)

(** C1, as amended.  After [selectTimezone t] in a reachable state, for [t]
    of the catalog: the selection is [t]; a control of either row is marked
    active exactly when its timezone is [t], every other one is cleared; some
    bar button is active, and when the catalog has no duplicates exactly one
    is, the button of [t]; next to it every top-row button that carries [t]
    is active as well. *)
Theorem select_marks_matching_controls
  (P : platform) (m : markup) (s : state) (t : jsstring) (now : Z) :
  reachable P m s ->
  In t (getAllTimeZones P) ->
  let s' := fst (selectTimezone P t now s) in
  selectedTimezone s' = t
  /\ (forall b, In b (coreCityButtons s') ->
        (city_active b = true <-> city_timezone b = Some t))
  /\ (forall b, In b (timezoneBarEl s') ->
        (tz_active b = true <-> tz_timezone b = t))
  /\ activeTzButtons s' <> []
  /\ (NoDup (getAllTimeZones P) ->
        activeTzButtons s' = [markTz t (newTzButton P t)])
  /\ length (activeCities s') =
     length (filter (fun b => strictEqOpt (city_timezone b) t) (m_cities m)).
Proof.
  intros Hreach Hin s'.
  destruct (reachable_invariant Hreach) as [Hr _].
  destruct (selectTimezone_fields P t now s) as (H1 & _ & H3 & H4 & _).
  fold s' in H1, H3, H4.
  split; [exact H1|]. split; [|split; [|split; [|split]]].
  - intros b Hb. rewrite H3 in Hb. apply in_map_iff in Hb as [b0 [<- _]].
    rewrite markCity_active, markCity_timezone. apply strictEqOpt_eq.
  - intros b Hb. rewrite H4 in Hb. apply in_map_iff in Hb as [b0 [<- _]].
    rewrite markTz_active. simpl. apply strictEq_eq.
  - unfold s'. rewrite (activeTzButtons_select t now Hr).
    intros E. apply map_eq_nil in E. revert E. now apply filter_present.
  - intros Hnd. unfold s'. rewrite (activeTzButtons_select t now Hr).
    now rewrite filter_unique.
  - unfold s'. rewrite (activeCities_select t now Hr). apply length_map.
Qed.

(** C1, as stated, fails on a page whose top row has a button for UTC: after
    [selectTimezone "UTC"] two controls are active. *)
Lemma select_marks_two_controls :
  In (js "UTC") (getAllTimeZones legacyRuntime)
  /\ activeCount
       (fst (selectTimezone legacyRuntime (js "UTC") 0
               (fst (init legacyRuntime samplePage 0)))) = 2.
Proof. split; [apply fallbackZones_UTC|reflexivity]. Qed.

Lemma select_marks_matching_controls_witness :
  selectedTimezone
    (fst (selectTimezone legacyRuntime (js "UTC") 0
            (fst (init legacyRuntime samplePage 0)))) = js "UTC".
Proof.
  refine (proj1 (@select_marks_matching_controls legacyRuntime samplePage
                   (fst (init legacyRuntime samplePage 0)) (js "UTC") 0%Z _ _)).
  - exists 0%Z, []. reflexivity.
  - apply fallbackZones_UTC.
Defined.

(** C2, as amended.  In every reachable state [selectedTimezone] is the
    default or the timezone of a control of the page: a catalog entry (bar
    button) or the non-empty [data-timezone] of a top-row button.  So it is
    in the catalog whenever the default and the top-row timezones are; the
    default is in the fallback catalog. *)
Theorem selected_from_rendered_control (P : platform) (m : markup) (s : state) :
  reachable P m s ->
  fromControl P m (selectedTimezone s)
  /\ (In defaultTimezone (getAllTimeZones P) ->
      (forall tz, In (Some tz) (cityZones m) -> truthy tz = true ->
                  In tz (getAllTimeZones P)) ->
      In (selectedTimezone s) (getAllTimeZones P))
  /\ In defaultTimezone fallbackZones.
Proof.
  intros Hreach.
  destruct (reachable_invariant Hreach) as [_ Hf].
  split; [exact Hf|]. split; [|apply fallbackZones_default].
  intros Hd Hc. destruct Hf as [->|[Hz|[Hz Ht]]]; auto.
Qed.

(** C2, as stated, fails: a click on the top-row Singapore button selects a
    zone the fallback catalog does not list. *)
Lemma selected_outside_catalog :
  selectedTimezone
    (run legacyRuntime [(ClickCity 1, 0%Z)] (fst (init legacyRuntime samplePage 0)))
  = js "Asia/Singapore"
  /\ ~ In (js "Asia/Singapore") (getAllTimeZones legacyRuntime).
Proof.
  split; [reflexivity|].
  intros H. simpl in H.
  repeat (destruct H as [H|H]; [discriminate H|]). exact H.
Qed.

Lemma selected_from_rendered_control_witness :
  In (selectedTimezone
        (run legacyRuntime [(ClickTz 11, 0%Z)] (fst (init legacyRuntime barePage 0))))
     (getAllTimeZones legacyRuntime).
Proof.
  refine (proj1 (proj2 (@selected_from_rendered_control legacyRuntime barePage
                          (run legacyRuntime [(ClickTz 11, 0%Z)]
                               (fst (init legacyRuntime barePage 0))) _)) _ _).
  - exists 0%Z, [(ClickTz 11, 0%Z)]. reflexivity.
  - apply fallbackZones_default.
  - intros tz H. simpl in H. contradiction.
Defined.



(** C4.  [getAllTimeZones] always returns, and under a runtime that keeps
    the promise of its enumeration the list it returns is not empty and has
    no duplicates: it is the runtime's list when the enumeration is there
    and returns, and in every other case (no [Intl], no such function, an
    exception) the fallback list, which is not empty, has no duplicates and
    contains "UTC". *)
Theorem getAllTimeZones_nonempty_nodup (P : platform) :
  conformingEnumeration P ->
  getAllTimeZones P <> []
  /\ NoDup (getAllTimeZones P)
  /\ getAllTimeZones P =
     match platformZones P with
     | Some zones => zones
     | None => fallbackZones
     end
  /\ fallbackZones <> []
  /\ NoDup fallbackZones
  /\ In (js "UTC") fallbackZones.
Proof.
  intros Hconf. rewrite getAllTimeZones_platform.
  assert (Hfb : fallbackZones <> [] /\ NoDup fallbackZones).
  { split; [discriminate|apply fallbackZones_NoDup]. }
  destruct (platformZones P) as [zones|] eqn:E.
  - destruct (Hconf zones E) as [Hne Hnd].
    repeat split; try assumption; try apply Hfb. apply fallbackZones_UTC.
  - repeat split; try apply Hfb. apply fallbackZones_UTC.
Qed.

Lemma getAllTimeZones_nonempty_nodup_witness :
  getAllTimeZones modernRuntime
    = [js "Asia/Singapore"; js "Australia/Brisbane"; js "UTC"]
  /\ getAllTimeZones legacyRuntime = fallbackZones.
Proof.
  split.
  - refine (proj1 (proj2 (proj2 (@getAllTimeZones_nonempty_nodup modernRuntime _)))).
    intros zones H. injection H as <-. split; [discriminate|].
    repeat (constructor;
            [ intros H; simpl in H;
              repeat (destruct H as [H|H]; [discriminate H|]); exact H | ]).
    constructor.
  - refine (proj1 (proj2 (proj2 (@getAllTimeZones_nonempty_nodup legacyRuntime _)))).
    intros zones H. discriminate H.
Defined.

(** C5.  Selecting [t] twice in a row leaves [selectedTimezone = t], and the
    page after the second call (label, both rows of buttons, clock and date
    at the instant of that call, and how the call ends) is the page one call
    at that instant gives. *)
Theorem select_idempotent (P : platform) (t : jsstring) (now now' : Z) (s : state) :
  selectedTimezone (fst (selectTimezone P t now' (fst (selectTimezone P t now s)))) = t
  /\ selectTimezone P t now' (fst (selectTimezone P t now s)) = selectTimezone P t now' s
  /\ selectTimezone P t now (fst (selectTimezone P t now s)) = selectTimezone P t now s.
Proof.
  split; [|split].
  - now destruct (selectTimezone_fields P t now' (fst (selectTimezone P t now s))).
  - apply selectTimezone_again.
  - apply selectTimezone_again.
Qed.

(** C6.  [updateClock], called directly or by the interval timer, leaves the
    selected timezone, the city label and every button of both rows as they
    were: only [#clock] and [#date] can change. *)
Theorem refresh_writes_clock_only (P : platform) (now : Z) (s : state) :
  (let s' := fst (updateClock P now s) in
   selectedTimezone s' = selectedTimezone s
   /\ cityNameEl s' = cityNameEl s
   /\ coreCityButtons s' = coreCityButtons s
   /\ timezoneBarEl s' = timezoneBarEl s)
  /\ (let s' := dispatch P TimerTick now s in
      selectedTimezone s' = selectedTimezone s
      /\ cityNameEl s' = cityNameEl s
      /\ coreCityButtons s' = coreCityButtons s
      /\ timezoneBarEl s' = timezoneBarEl s).
Proof.
  destruct (updateClock_frame P now s) as (H1 & H2 & H3 & H4 & _).
  split; [now repeat split|].
  simpl. destruct (intervalSet s); now repeat split.
Qed.

(** C7.  Two instants of one clock second give the same time string and the
    same date string for every timezone, and [updateClock] leaves the same
    page at both. *)
Theorem format_stable_within_second (P : platform) (tz : jsstring) (i j : Z) :
  clockSecond i = clockSecond j ->
  formatForTimezone P tz i = formatForTimezone P tz j
  /\ (forall s, selectedTimezone s = tz -> updateClock P i s = updateClock P j s).
Proof.
  intros H.
  assert (E : formatForTimezone P tz i = formatForTimezone P tz j).
  { unfold formatForTimezone.
    destruct (intl P) as [api|]; [|reflexivity].
    destruct (zoneOffset api tz) as [offset|]; [|reflexivity].
    destruct (@local_fields_by_second offset i j H) as (Hh & Hm & Hs & Hd).
    cbv zeta. now rewrite Hh, Hm, Hs, Hd. }
  split; [exact E|].
  intros s <-. unfold updateClock. now rewrite E.
Qed.

Lemma format_stable_within_second_witness :
  formatForTimezone legacyRuntime (js "UTC") 1500 =
  formatForTimezone legacyRuntime (js "UTC") 1999.
Proof.
  refine (proj1 (@format_stable_within_second legacyRuntime (js "UTC")
                   1500%Z 1999%Z _)).
  reflexivity.
Defined.

(** C8.  [sanitizeTestId] is a function of its argument: slashes become
    hyphens, whitespace becomes a hyphen (one for each run of it), what is
    then outside [[A-Za-z0-9-_]] is dropped, and the rest is lowered.  The
    equations for the empty string and for a string that starts with a given
    unit fix the key of every string.  The result has only lowercase
    letters, digits, hyphens and underscores: no slash, no whitespace, no
    capital.  The key of "Australia/Brisbane". *)
Theorem sanitizeTestId_key (P : platform) (tz : jsstring) :
  sanitizeTestId P tz =
    map lowerAscii
      (filter isKeyChar
         (replaceRuns isWhiteSpace [HYPHEN] (map slashToHyphen tz)))
  /\ forallb isKeyOut (sanitizeTestId P tz) = true
  /\ forallb (fun c => negb (isSlash c || isWhiteSpace c || isUpper c))
       (sanitizeTestId P tz) = true
  /\ (forall c, sanitizeTestId P [c] =
        if isSlash c || isWhiteSpace c then [HYPHEN]
        else if isKeyChar c then [lowerAscii c]
        else [])
  /\ sanitizeTestId P [] = []
  /\ (forall c r, sanitizeTestId P (c :: r) =
        if isWhiteSpace c then
          if startsWithSpace r then sanitizeTestId P r
          else HYPHEN :: sanitizeTestId P r
        else keyUnit c ++ sanitizeTestId P r)
  /\ sanitizeTestId P (js "New York") = js "new-york"
  /\ sanitizeTestId P (js "Australia/Brisbane") = js "australia-brisbane".
Proof.
  split; [apply sanitizeTestId_pipeline|].
  split; [apply sanitizeTestId_keyOut|].
  split; [|split; [apply sanitizeTestId_unit|]].
  - pose proof (sanitizeTestId_keyOut P tz) as H.
    rewrite forallb_forall in *. intros c Hc. specialize (H c Hc).
    rewrite (keyChar_not_slash _ (keyOut_keyChar _ H)),
      (keyChar_not_space _ (keyOut_keyChar _ H)), (keyOut_not_upper _ H).
    reflexivity.
  - split; [reflexivity|]. split; [apply sanitizeTestId_cons|].
    split; reflexivity.
Qed.

(** C9.  [sanitizeTestId] is idempotent. *)
Theorem sanitizeTestId_idempotent (P : platform) (s : jsstring) :
  sanitizeTestId P (sanitizeTestId P s) = sanitizeTestId P s.
Proof. apply sanitizeTestId_fixes_keys, sanitizeTestId_keyOut. Qed.

(** C10.  [prettyLabelFromTimezone] is defined on every string; the label of
    a non-empty string is not empty; when the final segment is empty, as for
    a string that ends in [/], the label is the whole string. *)
Theorem label_total_nonempty (tz : jsstring) :
  (exists label, prettyLabelFromTimezone tz = label)
  /\ (tz <> [] -> prettyLabelFromTimezone tz <> [])
  /\ (finalSegment tz [] -> prettyLabelFromTimezone tz = tz)
  /\ prettyLabelFromTimezone (tz ++ [SLASH]) = tz ++ [SLASH].
Proof.
  split; [now eexists|]. split; [|split].
  - intros Hne. destruct (pop_split_exists tz) as [seg [_ Hf]].
    rewrite (prettyLabel_final Hf).
    destruct seg; simpl; [assumption|discriminate].
  - intros Hf. now rewrite (prettyLabel_final Hf).
  - rewrite (@prettyLabel_final (tz ++ [SLASH]) []); [reflexivity|].
    split; [intros []|]. right. now exists tz.
Qed.

Lemma label_total_nonempty_witness :
  prettyLabelFromTimezone (js "Europe/") <> [].
Proof.
  refine (proj1 (proj2 (label_total_nonempty (js "Europe/"))) _).
  discriminate.
Defined.

(** * Further properties of the script *)

(** ** The page across events *)

Lemma rendered_run (P : platform) (m : markup) (now : Z) (evs : list (event * Z)) :
  rendered P m (run P evs (fst (init P m now))).
Proof.
  apply (@reachable_invariant P m). now exists now, evs.
Qed.

Lemma dispatch_intervalSet (P : platform) (e : event) (now : Z) (s : state) :
  intervalSet (dispatch P e now s) = intervalSet s.
Proof.
  destruct e as [i|i|]; simpl.
  - destruct (nth_error (coreCityButtons s) i) as [btn|]; [|reflexivity].
    destruct (city_timezone btn) as [tz|]; [|reflexivity].
    destruct (truthy tz); [|reflexivity].
    now destruct (selectTimezone_fields P tz now s) as (_ & _ & _ & _ & H).
  - destruct (nth_error (timezoneBarEl s) i) as [btn|]; [|reflexivity].
    now destruct (selectTimezone_fields P (tz_timezone btn) now s) as (_ & _ & _ & _ & H).
  - destruct (intervalSet s) eqn:E; [|assumption].
    destruct (updateClock_frame P now s) as (_ & _ & _ & _ & H). congruence.
Qed.

Lemma run_intervalSet (P : platform) (evs : list (event * Z)) (s : state) :
  intervalSet (run P evs s) = intervalSet s.
Proof.
  revert s; induction evs as [|[e now] evs IH]; intros s; simpl; [reflexivity|].
  now rewrite IH, dispatch_intervalSet.
Qed.

(** X1.  No event adds, removes, reorders or retags a control: after [init]
    and any events the bar has one button per catalog entry, in catalog
    order, each with the entry as [data-timezone] and title, its label as
    text and its key (made of [[a-z0-9-_]] only) as test id; the top-row
    buttons carry the [data-timezone] values of the markup. *)
Theorem controls_mirror_catalog
  (P : platform) (m : markup) (now : Z) (evs : list (event * Z)) :
  let s := run P evs (fst (init P m now)) in
  map tz_timezone (timezoneBarEl s) = getAllTimeZones P
  /\ map city_timezone (coreCityButtons s) = cityZones m
  /\ Forall (fun b => tz_title b = tz_timezone b
                      /\ tz_textContent b = prettyLabelFromTimezone (tz_timezone b)
                      /\ tz_testid b = sanitizeTestId P (tz_timezone b)
                      /\ forallb isKeyOut (tz_testid b) = true)
            (timezoneBarEl s).
Proof.
  intros s. destruct (rendered_run P m now evs) as (_ & Hc & Hb).
  fold s in Hc, Hb. rewrite Hc, Hb. split; [|split].
  - rewrite !map_map. simpl. apply map_id.
  - rewrite map_map. unfold cityZones. apply map_ext. intros b.
    apply markCity_timezone.
  - apply Forall_forall. intros b Hin.
    apply in_map_iff in Hin as [b1 [<- Hin]].
    apply in_map_iff in Hin as [z [<- _]]. simpl.
    repeat split. apply sanitizeTestId_keyOut.
Qed.

(** X2.  After [init] and any events, whatever their instants and whether or
    not formatting threw, the page shows the selection: [#city-name] is the
    label of [selectedTimezone]; a top-row button is active exactly when its
    [data-timezone] is the selection, with [aria-pressed] set to match; a bar
    button is active exactly when its timezone is the selection. *)
Theorem page_shows_selection
  (P : platform) (m : markup) (now : Z) (evs : list (event * Z)) :
  let s := run P evs (fst (init P m now)) in
  cityNameEl s = prettyLabelFromTimezone (selectedTimezone s)
  /\ Forall (fun b =>
               city_active b = strictEqOpt (city_timezone b) (selectedTimezone s)
               /\ city_ariaPressed b =
                  Some (js (if city_active b then "true" else "false")))
            (coreCityButtons s)
  /\ Forall (fun b => tz_active b = strictEq (tz_timezone b) (selectedTimezone s))
            (timezoneBarEl s).
Proof.
  intros s. destruct (rendered_run P m now evs) as (Hn & Hc & Hb).
  fold s in Hn, Hc, Hb. split; [exact Hn|]. rewrite Hc, Hb. split.
  - apply Forall_forall. intros b Hin. apply in_map_iff in Hin as [b0 [<- _]].
    rewrite markCity_active, markCity_timezone. split; [reflexivity|].
    unfold markCity. now destruct (strictEqOpt (city_timezone b0) (selectedTimezone s)).
  - apply Forall_forall. intros b Hin. apply in_map_iff in Hin as [b0 [<- _]].
    now rewrite markTz_active.
Qed.

Lemma activeTzButtons_rendered (P : platform) (m : markup) (s : state) :
  rendered P m s ->
  activeTzButtons s =
  map (fun z => markTz (selectedTimezone s) (newTzButton P z))
      (filter (fun z => strictEq z (selectedTimezone s)) (getAllTimeZones P)).
Proof.
  intros (_ & _ & Hb). unfold activeTzButtons.
  rewrite Hb, map_map, filter_map_swap.
  f_equal. apply filter_ext. intros z. apply markTz_active.
Qed.

(** X3.  After [init] and any events the active bar buttons are the buttons
    of the catalog entries equal to the selection: none when the selection
    is not in the catalog (the default under a runtime list without it, a
    top-row zone outside the catalog), exactly one when it is and the
    catalog has no duplicates. *)
Theorem bar_highlight_follows_catalog
  (P : platform) (m : markup) (now : Z) (evs : list (event * Z)) :
  let s := run P evs (fst (init P m now)) in
  length (activeTzButtons s) =
    length (filter (fun z => strictEq z (selectedTimezone s)) (getAllTimeZones P))
  /\ (~ In (selectedTimezone s) (getAllTimeZones P) -> activeTzButtons s = [])
  /\ (In (selectedTimezone s) (getAllTimeZones P) -> NoDup (getAllTimeZones P) ->
      activeTzButtons s =
      [markTz (selectedTimezone s) (newTzButton P (selectedTimezone s))]).
Proof.
  intros s. pose proof (rendered_run P m now evs) as Hr. fold s in Hr.
  rewrite (activeTzButtons_rendered Hr). split; [apply length_map|]. split.
  - intros H. now rewrite filter_absent.
  - intros Hin Hnd. now rewrite filter_unique.
Qed.

Lemma bar_highlight_follows_catalog_witness :
  activeTzButtons
    (run legacyRuntime [(ClickCity 1, 1000%Z)] (fst (init legacyRuntime samplePage 0)))
  = []
  /\ activeTzButtons
       (run legacyRuntime [(ClickTz 2, 1000%Z)] (fst (init legacyRuntime samplePage 0)))
     = [markTz (js "Asia/Tokyo") (newTzButton legacyRuntime (js "Asia/Tokyo"))].
Proof.
  split.
  - refine (proj1 (proj2 (@bar_highlight_follows_catalog legacyRuntime samplePage
                            0%Z [(ClickCity 1, 1000%Z)])) _).
    intros H. vm_compute in H.
    repeat (destruct H as [H|H]; [discriminate H|]). exact H.
  - refine (proj2 (proj2 (@bar_highlight_follows_catalog legacyRuntime samplePage
                            0%Z [(ClickTz 2, 1000%Z)])) _ _).
    + vm_compute. do 2 right. left. reflexivity.
    + apply fallbackZones_NoDup.
Defined.

(** X4.  How [selectTimezone] ends is decided by the formatter: when it
    formats, the call returns and [#clock] and [#date] show the strings of
    the new zone; when it throws, the exception leaves the call after the
    selection, the label and the highlighting were changed, and [#clock] and
    [#date] keep the text they had. *)
Theorem selectTimezone_completion
  (P : platform) (tz : jsstring) (now : Z) (s : state) :
  let r := selectTimezone P tz now s in
  selectedTimezone (fst r) = tz
  /\ cityNameEl (fst r) = prettyLabelFromTimezone tz
  /\ match formatForTimezone P tz now with
     | Some d => snd r = Normal /\ clockEl (fst r) = time d /\ dateEl (fst r) = date d
     | None => snd r = Thrown /\ clockEl (fst r) = clockEl s /\ dateEl (fst r) = dateEl s
     end.
Proof.
  intros r. destruct (selectTimezone_fields P tz now s) as (H1 & H2 & _).
  fold r in H1, H2. split; [exact H1|]. split; [exact H2|].
  unfold r, selectTimezone, updateClock. simpl.
  destruct (formatForTimezone P tz now); simpl; repeat split.
Qed.

(** X5.  The interval timer is installed exactly when the first
    [updateClock] of [init] returns, and no event installs or removes it
    later: under a runtime that cannot format the default zone the clock
    never ticks. *)
Theorem timer_set_by_first_refresh
  (P : platform) (m : markup) (now : Z) (evs : list (event * Z)) :
  intervalSet (run P evs (fst (init P m now))) =
    match formatForTimezone P defaultTimezone now with
    | Some _ => true
    | None => false
    end
  /\ snd (init P m now) =
    match formatForTimezone P defaultTimezone now with
    | Some _ => Normal
    | None => Thrown
    end.
Proof.
  rewrite run_intervalSet. unfold init, updateClock. simpl.
  destruct (formatForTimezone P defaultTimezone now); split; reflexivity.
Qed.

(** ** How the operations compose *)

(** X6.  The last selection wins: when the runtime can format [t2],
    selecting [t2] after any other selection leaves exactly the page that
    selecting [t2] alone does. *)
Theorem last_selection_wins
  (P : platform) (t1 t2 : jsstring) (now now' : Z) (s : state) :
  formatForTimezone P t2 now' <> None ->
  selectTimezone P t2 now' (fst (selectTimezone P t1 now s)) = selectTimezone P t2 now' s.
Proof.
  intros Hfmt. unfold selectTimezone, updateClock; simpl.
  destruct (formatForTimezone P t2 now') as [d2|]; [|contradiction].
  destruct (formatForTimezone P t1 now) as [d1|]; simpl;
    now rewrite map_markCity_again, map_markTz_again.
Qed.

Lemma last_selection_wins_witness :
  selectTimezone legacyRuntime (js "UTC") 2000
    (fst (selectTimezone legacyRuntime (js "Mars/Olympus") 1000
            (fst (init legacyRuntime samplePage 0))))
  = selectTimezone legacyRuntime (js "UTC") 2000 (fst (init legacyRuntime samplePage 0)).
Proof.
  refine (@last_selection_wins legacyRuntime (js "Mars/Olympus") (js "UTC")
            1000%Z 2000%Z (fst (init legacyRuntime samplePage 0)) _).
  discriminate.
Defined.

(** X7.  A refresh leaves no trace of the refresh before it: [updateClock]
    at [j] after [updateClock] at [i] gives the page and the completion of
    [updateClock] at [j] alone. *)
Theorem refresh_overwrites (P : platform) (i j : Z) (s : state) :
  updateClock P j (fst (updateClock P i s)) = updateClock P j s.
Proof.
  unfold updateClock.
  destruct (formatForTimezone P (selectedTimezone s) i) as [d|] eqn:Ei; simpl.
  - destruct (formatForTimezone P (selectedTimezone s) j) as [d'|] eqn:Ej.
    + reflexivity.
    + apply formatForTimezone_throws with (j := i) in Ej. congruence.
  - reflexivity.
Qed.

(** X8.  [init] renders the page as a selection of the default zone on the
    freshly built bar does, and then installs the timer unless that
    rendering threw. *)
Theorem init_selects_default (P : platform) (m : markup) (now : Z) :
  init P m now =
  let r := selectTimezone P defaultTimezone now (buildTimezoneBar P (loaded m)) in
  match snd r with
  | Normal => (setInterval (fst r), Normal)
  | Thrown => (fst r, Thrown)
  end.
Proof.
  unfold init, selectTimezone.
  change (updateCityName (setSelectedTimezone defaultTimezone
                            (buildTimezoneBar P (loaded m))))
    with (updateCityName (buildTimezoneBar P (loaded m))).
  cbv zeta.
  destruct (updateClock P now
              (updateActiveStates (updateCityName (buildTimezoneBar P (loaded m)))))
    as [s3 [|]]; reflexivity.
Qed.

(** X9.  While the selected zone is one the runtime cannot format, timer
    ticks change nothing on the page: the clock keeps the text it had. *)
Theorem ticks_frozen_on_unknown_zone
  (P : platform) (now : Z) (evs : list (event * Z)) (s : state) :
  formatForTimezone P (selectedTimezone s) now = None ->
  Forall (fun ev => fst ev = TimerTick) evs ->
  run P evs s = s.
Proof.
  intros Hfmt Hticks. induction Hticks as [|[e t] evs He _ IH]; [reflexivity|].
  simpl in He. subst e. simpl.
  assert (E : (if intervalSet s then fst (updateClock P t s) else s) = s).
  { destruct (intervalSet s); [|reflexivity].
    unfold updateClock.
    now rewrite (formatForTimezone_throws P _ now t Hfmt). }
  rewrite E. exact IH.
Qed.

Lemma ticks_frozen_on_unknown_zone_witness :
  let s := fst (selectTimezone legacyRuntime (js "Mars/Olympus") 5000
                  (fst (init legacyRuntime samplePage 0))) in
  run legacyRuntime [(TimerTick, 6000%Z); (TimerTick, 7000%Z)] s = s.
Proof.
  refine (@ticks_frozen_on_unknown_zone legacyRuntime 0%Z
            [(TimerTick, 6000%Z); (TimerTick, 7000%Z)] _ _ _).
  - reflexivity.
  - repeat constructor.
Defined.

(** X10.  After [init] and any events, a click on the [i]-th bar button
    selects the [i]-th entry of the catalog and shows its label. *)
Theorem bar_click_selects_entry
  (P : platform) (m : markup) (now now' : Z) (evs : list (event * Z))
  (i : nat) (t : jsstring) :
  nth_error (getAllTimeZones P) i = Some t ->
  let s := run P evs (fst (init P m now)) in
  dispatch P (ClickTz i) now' s = fst (selectTimezone P t now' s)
  /\ selectedTimezone (dispatch P (ClickTz i) now' s) = t
  /\ cityNameEl (dispatch P (ClickTz i) now' s) = prettyLabelFromTimezone t.
Proof.
  intros Hi s. destruct (rendered_run P m now evs) as (_ & _ & Hb). fold s in Hb.
  assert (E : dispatch P (ClickTz i) now' s = fst (selectTimezone P t now' s)).
  { simpl. rewrite Hb, !nth_error_map, Hi. reflexivity. }
  rewrite E. split; [reflexivity|].
  destruct (selectTimezone_fields P t now' s) as (H1 & H2 & _). now split.
Qed.

Lemma bar_click_selects_entry_witness :
  selectedTimezone
    (dispatch legacyRuntime (ClickTz 2) 1000
       (run legacyRuntime [] (fst (init legacyRuntime samplePage 0))))
  = js "Asia/Tokyo".
Proof.
  refine (proj1 (proj2 (@bar_click_selects_entry legacyRuntime samplePage
                          0%Z 1000%Z [] 2 (js "Asia/Tokyo") _))).
  reflexivity.
Defined.

(** X11.  After [init] and any events, a click on the [i]-th top-row button
    selects the [data-timezone] the markup gave it; a button without the
    attribute, or with an empty one, changes nothing. *)
Theorem city_click_selects_markup_zone
  (P : platform) (m : markup) (now now' : Z) (evs : list (event * Z))
  (i : nat) (btn : cityButton) :
  nth_error (m_cities m) i = Some btn ->
  let s := run P evs (fst (init P m now)) in
  dispatch P (ClickCity i) now' s =
  match city_timezone btn with
  | Some tz => if truthy tz then fst (selectTimezone P tz now' s) else s
  | None => s
  end.
Proof.
  intros Hi s. destruct (rendered_run P m now evs) as (_ & Hc & _). fold s in Hc.
  simpl. rewrite Hc, nth_error_map, Hi. simpl.
  now rewrite markCity_timezone.
Qed.

Lemma city_click_selects_markup_zone_witness :
  let s := run legacyRuntime [] (fst (init legacyRuntime samplePage 0)) in
  dispatch legacyRuntime (ClickCity 1) 1000 s =
  fst (selectTimezone legacyRuntime (js "Asia/Singapore") 1000 s).
Proof.
  refine (@city_click_selects_markup_zone legacyRuntime samplePage 0%Z 1000%Z []
            1 (cityFor "Asia/Singapore") _).
  reflexivity.
Defined.

(** ** Labels *)

Lemma underscoreToSpace_again (c : N) :
  underscoreToSpace (underscoreToSpace c) = underscoreToSpace c.
Proof.
  unfold underscoreToSpace. destruct (isUnderscore c) eqn:E; [reflexivity|].
  now rewrite E.
Qed.

Lemma underscoreToSpace_image (c : N) :
  underscoreToSpace c <> UNDERSCORE
  /\ (underscoreToSpace c = SLASH -> c = SLASH).
Proof.
  unfold underscoreToSpace, isUnderscore.
  destruct (N.eqb_spec c UNDERSCORE) as [->|Hc]; split; try discriminate; auto.
Qed.

Lemma prettyLabel_no_separator (tz : jsstring) :
  ~ In SLASH tz -> prettyLabelFromTimezone tz = map underscoreToSpace tz.
Proof.
  intros H. rewrite (@prettyLabel_final tz tz) by (split; [assumption|now left]).
  now destruct tz.
Qed.

Lemma finalSegment_length (tz seg : jsstring) :
  finalSegment tz seg -> length seg <= length tz.
Proof.
  intros [_ [->|[pre ->]]]; [reflexivity|].
  rewrite length_app. simpl. lia.
Qed.

(** X12.  When the final segment of an identifier is not empty, its label
    has the length of that segment and holds neither a separator nor an
    underscore. *)
Theorem label_is_clean (tz seg : jsstring) :
  finalSegment tz seg -> seg <> [] ->
  length (prettyLabelFromTimezone tz) = length seg
  /\ ~ In SLASH (prettyLabelFromTimezone tz)
  /\ ~ In UNDERSCORE (prettyLabelFromTimezone tz).
Proof.
  intros Hf Hne. rewrite (prettyLabel_final Hf).
  destruct seg as [|c seg]; [contradiction|]. cbn [truthy].
  split; [apply length_map|]. split; intros Hin;
    apply in_map_iff in Hin as [d [Hd Hin]];
    destruct (underscoreToSpace_image d) as [Hu Hs].
  - apply Hs in Hd. subst d. now destruct Hf.
  - contradiction.
Qed.

Lemma label_is_clean_witness :
  length (prettyLabelFromTimezone (js "America/Port_of_Spain")) = 13.
Proof.
  refine (proj1 (@label_is_clean (js "America/Port_of_Spain")
                   (js "Port_of_Spain") _ _)).
  - split.
    + intros H. simpl in H. repeat (destruct H as [H|H]; [discriminate H|]). exact H.
    + right. now exists (js "America").
  - discriminate.
Defined.

(** X13.  A label is never longer than its identifier, and labelling a
    label changes nothing. *)
Theorem label_idempotent (tz : jsstring) :
  length (prettyLabelFromTimezone tz) <= length tz
  /\ prettyLabelFromTimezone (prettyLabelFromTimezone tz) = prettyLabelFromTimezone tz.
Proof.
  destruct (pop_split_exists tz) as [seg [_ Hf]].
  pose proof (finalSegment_length Hf) as Hlen.
  rewrite (prettyLabel_final Hf). destruct (truthy seg) eqn:T.
  - split; [now rewrite length_map|].
    rewrite prettyLabel_no_separator.
    + rewrite map_map. apply map_ext. intros c. apply underscoreToSpace_again.
    + intros Hin. apply in_map_iff in Hin as [d [Hd Hin]].
      apply underscoreToSpace_image in Hd. subst d. now destruct Hf.
  - split; [reflexivity|]. now rewrite (prettyLabel_final Hf), T.
Qed.

(** ** Keys *)

Lemma replaceRunsFrom_length (cls : N -> bool) (x : N) (inRun : bool) (s : jsstring) :
  length (replaceRunsFrom cls [x] inRun s) <= length s.
Proof.
  revert inRun; induction s as [|c r IH]; intros inRun; simpl; [reflexivity|].
  destruct (cls c).
  - destruct inRun; simpl.
    + specialize (IH true). lia.
    + specialize (IH true). lia.
  - simpl. specialize (IH false). lia.
Qed.

Lemma replaceRunsFrom_map (cls : N -> bool) (x : N) (f : N -> N) (inRun : bool)
      (s : jsstring) :
  (forall c, cls (f c) = cls c) -> f x = x ->
  replaceRunsFrom cls [x] inRun (map f s) = map f (replaceRunsFrom cls [x] inRun s).
Proof.
  intros Hcls Hx. revert inRun; induction s as [|c r IH]; intros inRun; simpl;
    [reflexivity|].
  rewrite Hcls. destruct (cls c).
  - destruct inRun; simpl; [apply IH|]. now rewrite IH, Hx.
  - simpl. now rewrite IH.
Qed.

Lemma lowerAscii_upper (c : N) :
  isUpper c = true ->
  isSlash (c + 32) = false /\ isWhiteSpace (c + 32) = false
  /\ isKeyChar (c + 32) = true /\ isUpper (c + 32) = false
  /\ isSlash c = false /\ isWhiteSpace c = false /\ isKeyChar c = true.
Proof.
  intros H. repeat split; char_facts; lia.
Qed.

Lemma lowerAscii_classes (c : N) :
  isSlash (lowerAscii c) = isSlash c
  /\ isWhiteSpace (lowerAscii c) = isWhiteSpace c
  /\ isKeyChar (lowerAscii c) = isKeyChar c
  /\ lowerAscii (lowerAscii c) = lowerAscii c.
Proof.
  unfold lowerAscii. destruct (isUpper c) eqn:U.
  - destruct (lowerAscii_upper c U) as (H1 & H2 & H3 & H4 & H5 & H6 & H7).
    rewrite H1, H2, H3, H4, H5, H6, H7. repeat split.
  - rewrite U. repeat split.
Qed.

Lemma slashToHyphen_lowerAscii (c : N) :
  slashToHyphen (lowerAscii c) = lowerAscii (slashToHyphen c).
Proof.
  unfold slashToHyphen.
  destruct (lowerAscii_classes c) as (Hs & _). rewrite Hs.
  destruct (isSlash c); reflexivity.
Qed.

Lemma slashToHyphen_again (c : N) : slashToHyphen (slashToHyphen c) = slashToHyphen c.
Proof.
  unfold slashToHyphen. destruct (isSlash c) eqn:E; [reflexivity|]. now rewrite E.
Qed.

(** X14.  A key is never longer than its identifier, and it is the same
    under every runtime: the case tables of the runtime are not consulted. *)
Theorem key_short_and_portable (P Q : platform) (tz : jsstring) :
  length (sanitizeTestId P tz) <= length tz
  /\ sanitizeTestId P tz = sanitizeTestId Q tz.
Proof.
  rewrite !sanitizeTestId_pipeline. split; [|reflexivity].
  rewrite length_map.
  etransitivity; [apply filter_length_le|].
  etransitivity; [apply replaceRunsFrom_length|].
  now rewrite length_map.
Qed.

(** X15.  The key does not tell [/] from [-] nor an ASCII capital from its
    small letter: identifiers that differ only in these have the same key. *)
Theorem key_conflates (P : platform) (tz : jsstring) :
  sanitizeTestId P (map slashToHyphen tz) = sanitizeTestId P tz
  /\ sanitizeTestId P (map lowerAscii tz) = sanitizeTestId P tz.
Proof.
  rewrite !sanitizeTestId_pipeline. split.
  - rewrite map_map. do 3 f_equal. apply map_ext. intros c. apply slashToHyphen_again.
  - assert (E : map slashToHyphen (map lowerAscii tz) =
                 map lowerAscii (map slashToHyphen tz)).
    { rewrite !map_map. apply map_ext. intros c. apply slashToHyphen_lowerAscii. }
    rewrite E. unfold replaceRuns. rewrite replaceRunsFrom_map.
    + rewrite filter_map_swap.
      rewrite (filter_ext (fun x => isKeyChar (lowerAscii x)) isKeyChar)
        by (intros c; apply lowerAscii_classes).
      rewrite map_map. apply map_ext. intros c. apply lowerAscii_classes.
    + intros c. apply lowerAscii_classes.
    + reflexivity.
Qed.

Lemma fallback_keys_NoDup (P : platform) : NoDup (map (sanitizeTestId P) fallbackZones).
Proof.
  unfold fallbackZones. simpl.
  repeat (constructor;
          [ intros H; simpl in H;
            repeat (destruct H as [H|H]; [discriminate H|]); exact H | ]).
  constructor.
Qed.

(** X16.  Under a runtime without a usable enumeration, the bar buttons of
    every state after [init] have pairwise distinct test ids and pairwise
    distinct timezones. *)
Theorem fallback_bar_ids_distinct
  (P : platform) (m : markup) (now : Z) (evs : list (event * Z)) :
  platformZones P = None ->
  let s := run P evs (fst (init P m now)) in
  NoDup (map tz_testid (timezoneBarEl s))
  /\ NoDup (map tz_timezone (timezoneBarEl s)).
Proof.
  intros Hnone s. destruct (rendered_run P m now evs) as (_ & _ & Hb).
  fold s in Hb. rewrite Hb, !map_map. simpl.
  rewrite getAllTimeZones_platform, Hnone. split.
  - apply fallback_keys_NoDup.
  - rewrite map_id. apply fallbackZones_NoDup.
Qed.

Lemma fallback_bar_ids_distinct_witness :
  NoDup (map tz_testid
           (timezoneBarEl (run legacyRuntime [] (fst (init legacyRuntime samplePage 0))))).
Proof.
  refine (proj1 (@fallback_bar_ids_distinct legacyRuntime samplePage 0%Z [] _)).
  reflexivity.
Defined.
